(** * resulta: a shallow embedding of [src/resulta.ts]

    The library represents the outcome of a fallible operation as a plain
    record [{ value, status, err }] and offers constructors, predicates,
    combinators and extractors over it.

    The embedding follows the TypeScript source function by function:
    - payloads are untyped JavaScript values ([JS.jsval]);
    - a Result is the record the object literals of [ok] and [err] build;
    - code that calls back into its caller, throws or awaits is a program
      of a small free monad ([Eff.prog]) whose nodes are the calls and the
      awaits it performs; running it against an environment yields the
      trace of calls made and the completion reached. *)

From Stdlib Require Import ZArith Lia Bool.
From Stdlib Require Import Floats.SpecFloat.
From stdpp Require Import base list strings.

Set Warnings "-register-all".

Local Open Scope string_scope.
Local Open Scope Z_scope.
Local Open Scope list_scope.

(** ** JavaScript values *)

Module JS.

(** The values a payload can hold.  Numbers are IEEE-754 doubles in
    their specification form; an object carries the names of the
    constructors along its prototype chain and its own properties. *)
Inductive jsval : Type :=
| VUndefined
| VNull
| VBool (b : bool)
| VNum (x : spec_float)
| VBigInt (z : Z)
| VStr (s : string)
| VSymbol (description : string)
| VArr (elems : list jsval)
| VObj (protos : list string) (props : list (string * jsval)).

(** ECMAScript [ToBoolean]. *)
Definition ToBoolean (v : jsval) : bool :=
  match v with
  | VUndefined | VNull => false
  | VBool b => b
  | VNum (S754_zero _) | VNum S754_nan => false
  | VNum _ => true
  | VBigInt z => negb (z =? 0)
  | VStr s => negb (String.eqb s "")
  | VSymbol _ | VArr _ | VObj _ _ => true
  end.

(** [a && b]: the left operand when it is falsy, the right one otherwise. *)
Definition and_ (a b : jsval) : jsval := if ToBoolean a then b else a.

(** [!a] *)
Definition not_ (a : jsval) : jsval := VBool (negb (ToBoolean a)).

(** The prototype chain of a value, as constructor names; primitives
    have none as far as [instanceof] is concerned. *)
Definition proto_chain (v : jsval) : list string :=
  match v with
  | VArr _ => ["Array"; "Object"]
  | VObj protos _ => protos
  | _ => []
  end.

(** [v instanceof C] for an ordinary constructor [C]. *)
Definition instanceof (v : jsval) (C : string) : bool :=
  existsb (String.eqb C) (proto_chain v).

(** Own-property read of an object, [undefined] when missing. *)
Fixpoint get_prop (props : list (string * jsval)) (k : string) : jsval :=
  match props with
  | [] => VUndefined
  | (k', v) :: rest => if String.eqb k k' then v else get_prop rest k
  end.

Definition get (v : jsval) (k : string) : jsval :=
  match v with
  | VObj _ props => get_prop props k
  | _ => VUndefined
  end.

(** [ToInt32] and the 32-bit left shift [a << b]. *)
Definition ToInt32 (z : Z) : Z :=
  let m := z mod 2 ^ 32 in
  if m <? 2 ^ 31 then m else m - 2 ^ 32.

Definition shl (a b : Z) : Z := ToInt32 (Z.shiftl (ToInt32 a) (Z.land b 31)).

(** [new Array(n).fill(x)] *)
Definition new_Array_fill (n : nat) (x : jsval) : list jsval := replicate n x.

(** [a[i] = x].  Inside the array the slot is overwritten; past its end
    JavaScript grows the array, the skipped holes reading [undefined]. *)
Definition array_set (a : list jsval) (i : nat) (x : jsval) : list jsval :=
  if (i <? length a)%nat then <[i := x]> a
  else a ++ replicate (i - length a) VUndefined ++ [x].

(** [new Error(message)] *)
Definition new_Error (message : string) : jsval :=
  VObj ["Error"; "Object"] [("message", VStr message)].

End JS.
Import JS.

(** ** The Result record *)

(** [const ResultStatus = { ok: 1 << 0, err: 1 << 1 }] *)
Module ResultStatus.
Definition ok : Z := JS.shl 1 0.
Definition err : Z := JS.shl 1 1.
End ResultStatus.

(** [interface ResultCase { status; value; err }] *)
Module ResultCase.
Record t : Type := mk { value : jsval; status : Z; err : jsval }.
End ResultCase.
Abbreviation Result := ResultCase.t.

(** ** Effects: calls into the caller's functions, throw, await *)

Module Eff.

(** How a call or an awaited promise completes: with a value, or by
    throwing (rejecting with) a value. *)
Inductive completion (A : Type) : Type :=
| Normal (v : A)
| Abrupt (thrown : jsval).
Arguments Normal {A} v.
Arguments Abrupt {A} thrown.

(** A promise is known by its identity only; how it settles is up to
    the environment. *)
Record promise : Type := Promise { promise_id : nat }.

(** The return types the signatures of the library give its function
    arguments: [A], [Result<B, E>] and [Promise<A>]. *)
Inductive ret : Type := RValue | RResult | RPromise.

Definition ret_type (t : ret) : Type :=
  match t with
  | RValue => jsval
  | RResult => Result
  | RPromise => promise
  end.

(** A function handed to the library, known by its identity. *)
Record callback (t : ret) : Type := Fn { fn_id : nat }.
Arguments Fn {t} fn_id.
Arguments fn_id {t} c.

(** Programs: return, throw, call a function argument, await a promise. *)
Inductive prog (R : Type) : Type :=
| Ret (r : R)
| Throw (e : jsval)
| Call (t : ret) (f : callback t) (args : list jsval)
       (k : completion (ret_type t) -> prog R)
| Await (p : promise) (k : completion jsval -> prog R).
Arguments Ret {R} r.
Arguments Throw {R} e.
Arguments Call {R} t f args k.
Arguments Await {R} p k.

Fixpoint bind {A B : Type} (p : prog A) (f : A -> prog B) : prog B :=
  match p with
  | Ret a => f a
  | Throw e => Throw e
  | Call t fn args k => Call t fn args (fun c => bind (k c) f)
  | Await pr k => Await pr (fun c => bind (k c) f)
  end.

(** A completion resumes the program: a thrown value propagates. *)
Definition resume {A : Type} (c : completion A) : prog A :=
  match c with
  | Normal v => Ret v
  | Abrupt e => Throw e
  end.

(** [f(args)] *)
Definition call {t : ret} (f : callback t) (args : list jsval)
  : prog (ret_type t) :=
  Call t f args resume.

(** [await p] *)
Definition await (p : promise) : prog jsval := Await p resume.

(** [try { body } catch (e) { handler(e) }] *)
Fixpoint try_catch {R : Type} (body : prog R) (handler : jsval -> prog R)
  : prog R :=
  match body with
  | Ret r => Ret r
  | Throw e => handler e
  | Call t fn args k => Call t fn args (fun c => try_catch (k c) handler)
  | Await pr k => Await pr (fun c => try_catch (k c) handler)
  end.

(** What an observer of the library sees it do. *)
Inductive event : Type :=
| EvCall (id : nat) (args : list jsval)
| EvAwait (p : promise).

(** The caller's side: how each call and each await is answered, as a
    state machine.  [None] stands for a call that never returns or a
    promise that never settles. *)
Record env (S : Type) : Type := Env {
  on_call : forall t : ret, callback t -> list jsval -> S ->
            option (completion (ret_type t) * S);
  on_await : promise -> S -> option (completion jsval * S)
}.
Arguments Env {S} on_call on_await.
Arguments on_call {S} e t f args s.
Arguments on_await {S} e p s.

(** Run a program against an environment: the events in order, and the
    completion with the final state when the program gets that far. *)
Fixpoint run {S R : Type} (h : env S) (p : prog R) (s : S)
  : list event * option (completion R * S) :=
  match p with
  | Ret r => ([], Some (Normal r, s))
  | Throw e => ([], Some (Abrupt e, s))
  | Call t f args k =>
      match on_call h t f args s with
      | None => ([EvCall (fn_id f) args], None)
      | Some (c, s') =>
          let (tr, out) := run h (k c) s' in
          (EvCall (fn_id f) args :: tr, out)
      end
  | Await p k =>
      match on_await h p s with
      | None => ([EvAwait p], None)
      | Some (c, s') =>
          let (tr, out) := run h (k c) s' in
          (EvAwait p :: tr, out)
      end
  end.

Definition trace {S R : Type} (h : env S) (p : prog R) (s : S) : list event :=
  fst (run h p s).

Definition outcome {S R : Type} (h : env S) (p : prog R) (s : S)
  : option (completion R) :=
  fst <$> snd (run h p s).

(** How the promise returned by an [async] function settles, given how
    its body ran: a returned value fulfils it, a thrown one rejects it,
    and a body that never resumes leaves it pending. *)
Inductive settlement (R : Type) : Type :=
| Fulfilled (r : R)
| Rejected (e : jsval)
| Pending.
Arguments Fulfilled {R} r.
Arguments Rejected {R} e.
Arguments Pending {R}.

Definition settle {R : Type} (o : option (completion R)) : settlement R :=
  match o with
  | Some (Normal r) => Fulfilled r
  | Some (Abrupt e) => Rejected e
  | None => Pending
  end.

(** The number of calls of the function [id] in a trace. *)
Definition is_call_of (id : nat) (ev : event) : bool :=
  match ev with
  | EvCall id' _ => Nat.eqb id id'
  | EvAwait _ => false
  end.

Definition calls_of (id : nat) (tr : list event) : nat :=
  length (List.filter (is_call_of id) tr).

(** The number of awaits in a trace. *)
Definition is_await (ev : event) : bool :=
  match ev with
  | EvCall _ _ => false
  | EvAwait _ => true
  end.

Definition awaits_of (tr : list event) : nat :=
  length (List.filter is_await tr).

(** An environment of pure functions: each function is a table from
    arguments to completions, each promise has a fixed fate. *)
Definition pure_env
    (fv : nat -> list jsval -> option (completion jsval))
    (fr : nat -> list jsval -> option (completion Result))
    (fp : nat -> list jsval -> option (completion promise))
    (aw : promise -> option (completion jsval)) : env unit :=
  Env (fun t =>
         match t return callback t -> list jsval -> unit ->
                        option (completion (ret_type t) * unit) with
         | RValue => fun f args s => (fun c => (c, s)) <$> fv (fn_id f) args
         | RResult => fun f args s => (fun c => (c, s)) <$> fr (fn_id f) args
         | RPromise => fun f args s => (fun c => (c, s)) <$> fp (fn_id f) args
         end)
      (fun p s => (fun c => (c, s)) <$> aw p).

End Eff.
Import Eff.

(** [prog] is a monad; programs are written with stdpp's [x ← c; k]. *)
#[global] Instance prog_ret : MRet prog := @Ret.
#[global] Instance prog_bind : MBind prog := fun A B f p => bind p f.

(** ** The library *)

Module Resulta.

Definition isOk (result : Result) : bool :=
  Z.eqb (ResultCase.status result) ResultStatus.ok.

Definition isErr (result : Result) : bool :=
  Z.eqb (ResultCase.status result) ResultStatus.err.

Definition err (e : jsval) : Result :=
  {| ResultCase.value := VNull;
     ResultCase.status := ResultStatus.err;
     ResultCase.err := e |}.

Definition ok (t : jsval) : Result :=
  {| ResultCase.value := t;
     ResultCase.status := ResultStatus.ok;
     ResultCase.err := VNull |}.

(** [result(value?)]: a missing argument reads as [undefined]. *)
Definition result (arg : option jsval) : Result :=
  let value := default VUndefined arg in
  let isError := instanceof value "Error" in
  if ToBoolean (and_ value (not_ (VBool isError))) then ok value
  else err value.

(** The body of the [async function ofPromise]; the promise the caller
    gets settles as [settle] says. *)
Definition ofPromise (thunk : callback RPromise) : prog Result :=
  try_catch
    (p ← call thunk [];
     value ← await p;
     mret (ok value))
    (fun error => mret (err error)).

Definition ofThrowable (throwable : callback RValue) : prog Result :=
  try_catch
    (v ← call throwable [];
     mret (ok v))
    (fun e => mret (err e)).

Definition andThen (result : Result) (tx : callback RResult) : prog Result :=
  if isOk result then call tx [ResultCase.value result]
  else mret result.

Definition map (result : Result) (tx : callback RValue) : prog Result :=
  if isOk result then
    b ← call tx [ResultCase.value result];
    mret (ok b)
  else mret result.

Definition mapErr (result : Result) (tx : callback RValue) : prog Result :=
  if isOk result then mret result
  else
    b ← call tx [ResultCase.err result];
    mret (err b).

Definition valueOr (result : Result) (fallback : jsval) : jsval :=
  if isOk result then ResultCase.value result else fallback.

(** [class ResultAccessErr extends Error { readonly _tag = "ResultAccessErr" }]:
    the instance [new ResultAccessErr(message)] builds. *)
Definition new_ResultAccessErr (message : string) : jsval :=
  VObj ["ResultAccessErr"; "Error"; "Object"]
       [("message", VStr message); ("_tag", VStr "ResultAccessErr")].

Definition valueExn (result : Result) : prog jsval :=
  if isOk result then mret (ResultCase.value result)
  else Throw (new_ResultAccessErr "Tried to access result value that is not ok").

(** [for (let result of results) { ... }] of [combine], with the array
    being filled and the write index [i] as loop state.  The second
    component of the answer counts the elements the iterator handed to
    the loop body before the function returned. *)
Fixpoint combine_loop (rest : list Result) (values : list jsval) (i : nat)
  : Result * nat :=
  match rest with
  | [] => (ok (VArr values), 0%nat)
  | result :: rest' =>
      if isOk result then
        let (r, n) :=
          combine_loop rest' (array_set values i (ResultCase.value result)) (S i) in
        (r, S n)
      else (result, 1%nat)
  end.

Definition combine_scan (results : list Result) : Result * nat :=
  let values := new_Array_fill (length results) VNull in
  combine_loop results values 0.

Definition combine (results : list Result) : Result :=
  fst (combine_scan results).

(** The [cases] argument of [match]. *)
Record cases : Type := Cases { Ok : callback RValue; Err : callback RValue }.

Definition match_ (result : Result) (cases : cases) : prog jsval :=
  if isOk result then call (Ok cases) [ResultCase.value result]
  else call (Err cases) [ResultCase.err result].

End Resulta.
Import Resulta.

(** ** Notions the properties are stated with *)

(** A call site that nests [andThen] calls:
    [andThen(... andThen(andThen(r, f1), f2) ..., fn)]. *)
Definition andThen_chain (r : Result) (fs : list (callback RResult))
  : prog Result :=
  fold_left (fun acc f => r' ← acc; andThen r' f) fs (mret r).

(** A field is populated when it holds something else than [null]. *)
Definition populated (v : jsval) : bool :=
  match v with
  | VNull => false
  | _ => true
  end.

Definition exactly_one_populated (r : Result) : bool :=
  xorb (populated (ResultCase.value r)) (populated (ResultCase.err r)).

(** The values JavaScript treats as false in a condition. *)
Inductive falsy : jsval -> Prop :=
| falsy_undefined : falsy VUndefined
| falsy_null : falsy VNull
| falsy_false : falsy (VBool false)
| falsy_zero sign : falsy (VNum (S754_zero sign))
| falsy_nan : falsy (VNum S754_nan)
| falsy_bigint_zero : falsy (VBigInt 0)
| falsy_empty_string : falsy (VStr "").

(** The Results the constructors of the library hand out.  For the two
    constructors that run a thunk, these are the Results a run of the
    constructor completes with, against any environment. *)
Inductive constructed : Result -> Prop :=
| constructed_ok v : constructed (ok v)
| constructed_err e : constructed (err e)
| constructed_result arg : constructed (result arg)
| constructed_ofThrowable {S} (h : env S) throwable s tr r s' :
    run h (ofThrowable throwable) s = (tr, Some (Normal r, s')) ->
    constructed r
| constructed_ofPromise {S} (h : env S) thunk s tr r s' :
    run h (ofPromise thunk) s = (tr, Some (Normal r, s')) ->
    constructed r.

(** Environments used to exercise the statements on concrete inputs. *)
Module Demo.

Definition thunk : callback RValue := Fn 0.
Definition pthunk : callback RPromise := Fn 1.
Definition tx : callback RResult := Fn 2.
Definition fn : callback RValue := Fn 3.
Definition onOk : callback RValue := Fn 4.
Definition onErr : callback RValue := Fn 5.

Definition boom : jsval := new_Error "boom".

(** Every function returns normally and every promise fulfils. *)
Definition returning : env unit :=
  pure_env (fun _ args => Some (Normal (VArr args)))
           (fun _ args => Some (Normal (ok (VArr args))))
           (fun id _ => Some (Normal (Promise id)))
           (fun _ => Some (Normal (VStr "fulfilled"))).

(** Every function throws the string ["thrown"]. *)
Definition throwing : env unit :=
  pure_env (fun _ _ => Some (Abrupt (VStr "thrown")))
           (fun _ _ => Some (Abrupt (VStr "thrown")))
           (fun _ _ => Some (Abrupt (VStr "thrown")))
           (fun _ => None).

(** Functions return, promises reject with the string ["rejected"]. *)
Definition rejecting : env unit :=
  pure_env (fun _ args => Some (Normal (VArr args)))
           (fun _ args => Some (Normal (ok (VArr args))))
           (fun id _ => Some (Normal (Promise id)))
           (fun _ => Some (Abrupt (VStr "rejected"))).

(** The functions of the chaining scenarios of the test suite, over
    integers: [double], [failOnEven] and [addOne] return Results,
    [succ] is the [Ok] case [x => x + 1] and [minusOne] the [Err] case
    [() => -1] of a [match]. *)
Definition double : callback RResult := Fn 10.
Definition failOnEven : callback RResult := Fn 11.
Definition addOne : callback RResult := Fn 12.
Definition succ : callback RValue := Fn 13.
Definition minusOne : callback RValue := Fn 14.

Definition even_error : jsval := new_Error "even".

Definition arith_result (id : nat) (args : list jsval)
  : option (completion Result) :=
  match args with
  | VBigInt x :: _ =>
      if Nat.eqb id 10 then Some (Normal (ok (VBigInt (x * 2))))
      else if Nat.eqb id 11 then
        Some (Normal (if Z.even x then err even_error else ok (VBigInt x)))
      else if Nat.eqb id 12 then Some (Normal (ok (VBigInt (x + 1))))
      else None
  | _ => None
  end.

Definition arith_value (id : nat) (args : list jsval)
  : option (completion jsval) :=
  if Nat.eqb id 14 then Some (Normal (VBigInt (-1)))
  else match args with
       | VBigInt x :: _ =>
           if Nat.eqb id 13 then Some (Normal (VBigInt (x + 1))) else None
       | _ => None
       end.

Definition arith : env unit :=
  pure_env arith_value arith_result (fun _ _ => None) (fun _ => None).

End Demo.

(** ** Call sites of the library *)

(** A record with one of the two shapes the type [Result<A, E>] allows. *)
Definition well_shaped (r : Result) : Prop :=
  (exists a, r = ok a) \/ (exists e, r = err e).

(** [map(map(r, f), g)] *)
Definition map_map (r : Result) (f g : callback RValue) : prog Result :=
  r' ← map r f; map r' g.

(** [mapErr(map(r, f), g)] *)
Definition mapErr_map (r : Result) (f g : callback RValue) : prog Result :=
  r' ← map r f; mapErr r' g.

(** [valueExn(ofThrowable(thunk))] *)
Definition valueExn_ofThrowable (thunk : callback RValue) : prog jsval :=
  r ← ofThrowable thunk; valueExn r.

Module Tests.

(** [resulta.test.ts], "should return the first Err if any result is Err":
    [results = values.map((x) => ok(x))] followed by
    [results[errorIndex % (values.length + 1)] = err(error)].  The index
    is a remainder modulo the length plus one, so it is at most the
    length of the array, and a write at the length appends. *)
Definition results_with_err (values : list jsval) (error : jsval)
    (errorIndex : nat) : list Result :=
  let results := ok <$> values in
  let k := (errorIndex mod (length values + 1))%nat in
  if (k <? length results)%nat then <[k := err error]> results
  else results ++ [err error].

(** Thunks return a promise that never settles. *)
Definition pending : env unit :=
  pure_env (fun _ _ => None) (fun _ _ => None)
           (fun id _ => Some (Normal (Promise id)))
           (fun _ => None).

(** The handlers [x => x] (function 20) and [() => "fallback"] (any other). *)
Definition identity : callback RValue := Fn 20.
Definition constant : callback RValue := Fn 21.

Definition unwrapping : env unit :=
  pure_env (fun id args =>
              if Nat.eqb id 20 then Some (Normal (default VUndefined (head args)))
              else Some (Normal (VStr "fallback")))
           (fun _ _ => None) (fun _ _ => None) (fun _ => None).

End Tests.

(** ** Proof steps *)

(** Unfold a library function down to the nodes of its program. *)
Ltac step_prog :=
  unfold trace, outcome, map, mapErr, andThen, match_, ofThrowable, ofPromise,
    valueExn, call, await, mbind, prog_bind, mret, prog_ret;
  simpl.

(** Case analysis on how the environment answers the next call or await. *)
Ltac answer_cases :=
  repeat match goal with
    | |- context [on_call ?h ?t ?f ?args ?s] =>
        destruct (on_call h t f args s) as [[[? | ?] ?] | ]; simpl
    | |- context [on_await ?h ?p ?s] =>
        destruct (on_await h p s) as [[[? | ?] ?] | ]; simpl
    end.

(** * Properties *)

(** ** Basic facts *)

Lemma ResultStatus_ok_val : ResultStatus.ok = 1.
Proof. reflexivity. Qed.

Lemma ResultStatus_err_val : ResultStatus.err = 2.
Proof. reflexivity. Qed.

Lemma isOk_ok v : isOk (ok v) = true.
Proof. reflexivity. Qed.

Lemma isOk_err e : isOk (err e) = false.
Proof. reflexivity. Qed.

Lemma isErr_ok v : isErr (ok v) = false.
Proof. reflexivity. Qed.

Lemma isErr_err e : isErr (err e) = true.
Proof. reflexivity. Qed.

Lemma ok_neq_err v e : ok v <> err e.
Proof. intros H. apply (f_equal isOk) in H. discriminate H. Qed.

(** A record with the shape the type [Result<A, E>] allows is one that
    [ok] or [err] builds. *)
Lemma Result_shape (r : Result) :
  (ResultCase.status r = ResultStatus.ok /\ ResultCase.err r = VNull) \/
  (ResultCase.status r = ResultStatus.err /\ ResultCase.value r = VNull) <->
  (exists a, r = ok a) \/ (exists e, r = err e).
Proof.
  destruct r as [v st e]; simpl. split.
  - intros [[-> ->] | [-> ->]]; [left; exists v | right; exists e]; reflexivity.
  - intros [[a H] | [e' H]]; inversion H; subst; auto.
Qed.

Lemma ToBoolean_false_iff v : ToBoolean v = false <-> falsy v.
Proof.
  split.
  - destruct v as [ | | [] | [] | z | s | | | ]; simpl; try discriminate;
      try (intros _; constructor).
    + intros H. apply negb_false_iff, Z.eqb_eq in H. subst. constructor.
    + intros H. apply negb_false_iff, String.eqb_eq in H. subst. constructor.
  - intros H. destruct H; reflexivity.
Qed.

(** ** combine *)

Lemma array_set_next (filled : list jsval) (n : nat) (x : jsval) :
  array_set (filled ++ replicate (S n) VNull) (length filled) x
  = (filled ++ [x]) ++ replicate n VNull.
Proof.
  unfold array_set.
  assert (Hlt : (length filled <? length (filled ++ replicate (S n) VNull))%nat = true).
  { apply Nat.ltb_lt. rewrite length_app, length_replicate. lia. }
  rewrite Hlt, insert_app_r_alt by lia.
  rewrite Nat.sub_diag. simpl. now rewrite <- app_assoc.
Qed.

(** The loop invariant on the all-Ok path: the slots below [i] hold the
    values seen so far, the others still hold [null]. *)
Lemma combine_loop_all_ok (rest : list Result) :
  Forall (fun r => isOk r = true) rest ->
  forall filled : list jsval,
    combine_loop rest (filled ++ replicate (length rest) VNull) (length filled)
    = (ok (VArr (filled ++ (ResultCase.value <$> rest))), length rest).
Proof.
  induction 1 as [ | r rest Hr _ IH]; intros filled.
  - simpl. now rewrite !app_nil_r.
  - cbn [combine_loop]. rewrite Hr.
    cbn [length]. rewrite array_set_next.
    replace (S (length filled)) with (length (filled ++ [ResultCase.value r]))
      by (rewrite length_app; simpl; lia).
    rewrite IH. rewrite <- app_assoc. reflexivity.
Qed.

Lemma combine_loop_first_err (pre : list Result) (e : Result) (post : list Result) :
  Forall (fun r => isOk r = true) pre ->
  isOk e = false ->
  forall values i, combine_loop (pre ++ e :: post) values i = (e, S (length pre)).
Proof.
  intros Hpre He. induction Hpre as [ | r pre Hr _ IH]; intros values i.
  - simpl. now rewrite He.
  - cbn [app combine_loop]. rewrite Hr, IH. reflexivity.
Qed.

Lemma Forall_isOk_fmap_ok (vs : list jsval) :
  Forall (fun r => isOk r = true) (ok <$> vs).
Proof. induction vs; constructor; auto. Qed.

Lemma fmap_value_ok (vs : list jsval) : ResultCase.value <$> (ok <$> vs) = vs.
Proof. induction vs as [ | v vs IH]; [reflexivity | ]. cbn. now f_equal. Qed.

(** C1. [combine] walks the array in order.  When every element is Ok it
    returns Ok of the array of the wrapped values, in input order, having
    gone through all of them; the empty array gives Ok of the empty array.
    When an element is not Ok, with only Ok elements before it, [combine]
    returns that very element after the iterator has handed out it and its
    predecessors only: whatever follows is never looked at. *)
Theorem combine_spec :
  (forall results : list Result,
      Forall (fun r => isOk r = true) results ->
      combine_scan results
      = (ok (VArr (ResultCase.value <$> results)), length results))
  /\ (forall vs : list jsval, combine (ok <$> vs) = ok (VArr vs))
  /\ (forall (pre : list Result) (e : Result) (post : list Result),
         Forall (fun r => isOk r = true) pre ->
         isOk e = false ->
         combine_scan (pre ++ e :: post) = (e, S (length pre)))
  /\ (forall (vs : list jsval) (e : jsval) (post : list Result),
         combine ((ok <$> vs) ++ err e :: post) = err e)
  /\ combine [] = ok (VArr []).
Proof.
  assert (Hall : forall results : list Result,
             Forall (fun r => isOk r = true) results ->
             combine_scan results
             = (ok (VArr (ResultCase.value <$> results)), length results)).
  { intros results H. unfold combine_scan, new_Array_fill.
    apply (combine_loop_all_ok results H []). }
  assert (Hfirst : forall pre e post,
             Forall (fun r => isOk r = true) pre -> isOk e = false ->
             combine_scan (pre ++ e :: post) = (e, S (length pre))).
  { intros pre e post Hpre He. unfold combine_scan.
    now apply combine_loop_first_err. }
  split; [ | split; [ | split; [ | split]]].
  - exact Hall.
  - intros vs. unfold combine.
    rewrite (Hall _ (Forall_isOk_fmap_ok vs)). cbn [fst].
    do 2 f_equal. apply fmap_value_ok.
  - exact Hfirst.
  - intros vs e post. unfold combine.
    rewrite (Hfirst _ (err e) post (Forall_isOk_fmap_ok vs) (isOk_err e)).
    reflexivity.
  - reflexivity.
Qed.

(** Scenario 3 of the specification, and an all-Ok array, through
    [combine_spec]. *)
Lemma combine_spec_witness :
  combine_scan [ok (VStr "a"); ok VNull; ok (VBigInt 3)]
  = (ok (VArr [VStr "a"; VNull; VBigInt 3]), 3%nat)
  /\ combine_scan [ok (VBigInt 1); ok (VBigInt 2); err Demo.boom; ok (VBigInt 4)]
     = (err Demo.boom, 3%nat).
Proof.
  destruct combine_spec as (Hall & _ & Hfirst & _).
  split.
  - apply (Hall [ok (VStr "a"); ok VNull; ok (VBigInt 3)]).
    repeat constructor.
  - apply (Hfirst [ok (VBigInt 1); ok (VBigInt 2)] (err Demo.boom) [ok (VBigInt 4)]).
    + repeat constructor.
    + reflexivity.
Defined.

(** ** Nested andThen calls over an Err *)

Lemma andThen_err (e : jsval) (f : callback RResult) :
  andThen (err e) f = Ret (err e).
Proof. reflexivity. Qed.

(** Over an Err, a nest of [andThen] calls of any depth is that Err: no
    call node is left in the program. *)
Lemma andThen_chain_err (e : jsval) (fs : list (callback RResult)) :
  andThen_chain (err e) fs = Ret (err e).
Proof.
  unfold andThen_chain.
  change (mret (err e)) with (Ret (err e) : prog Result).
  induction fs as [ | f fs IH]; [reflexivity | ].
  cbn [fold_left]. exact IH.
Qed.

(** ** Runs of the library against an arbitrary environment *)

Section Runs.

Context {S : Type} (h : env S).

Lemma run_call t (f : callback t) args s :
  run h (call f args) s = ([EvCall (fn_id f) args], on_call h t f args s).
Proof.
  unfold call. simpl.
  destruct (on_call h t f args s) as [[[v | e] s'] | ]; reflexivity.
Qed.

(** A [try] whose [catch] block returns never completes by throwing,
    whatever its body does. *)
Lemma try_catch_never_throws {R : Type} (body : prog R) (recover : jsval -> R) :
  forall (s : S) (e : jsval),
    outcome h (try_catch body (fun x => Ret (recover x))) s <> Some (Abrupt e).
Proof.
  unfold outcome.
  induction body as [r | x | t f args k IH | p k IH]; intros s e; simpl;
    try discriminate.
  - destruct (on_call h t f args s) as [[c s'] | ]; [ | discriminate].
    specialize (IH c s' e).
    destruct (run h (try_catch (k c) _) s') as [tr out]. exact IH.
  - destruct (on_await h p s) as [[c s'] | ]; [ | discriminate].
    specialize (IH c s' e).
    destruct (run h (try_catch (k c) _) s') as [tr out]. exact IH.
Qed.

Lemma settle_rejected {R : Type} (o : option (completion R)) (e : jsval) :
  settle o = Rejected e <-> o = Some (Abrupt e).
Proof.
  destruct o as [[r | e'] | ]; simpl; split; intros H;
    inversion H; subst; reflexivity.
Qed.

(** C2. [andThen] on Ok(a) calls [tx] once, with [a], and completes the
    way that call completes: what [tx] returns is returned as it is.  On
    Err(e) it returns the Result it was given, the wrapped error
    untouched, and calls nothing; so does a nest of [andThen] calls of
    any depth that starts from an Err. *)
Theorem andThen_spec (s : S) (tx : callback RResult) :
  (forall a : jsval,
      run h (andThen (ok a) tx) s
      = ([EvCall (fn_id tx) [a]], on_call h RResult tx [a] s))
  /\ (forall e : jsval,
         run h (andThen (err e) tx) s = ([], Some (Normal (err e), s)))
  /\ (forall (e : jsval) (fs : list (callback RResult)),
         run h (andThen_chain (err e) fs) s = ([], Some (Normal (err e), s))).
Proof.
  split; [ | split].
  - intros a. apply (run_call RResult tx [a] s).
  - intros e. reflexivity.
  - intros e fs. rewrite andThen_chain_err. reflexivity.
Qed.

Lemma run_map_ok (s : S) (tx : callback RValue) (a : jsval) :
  run h (map (ok a) tx) s
  = ([EvCall (fn_id tx) [a]],
     match on_call h RValue tx [a] s with
     | Some (Normal b, s') => Some (Normal (ok b), s')
     | Some (Abrupt e, s') => Some (Abrupt e, s')
     | None => None
     end).
Proof. step_prog. answer_cases; reflexivity. Qed.

Lemma trace_map (s : S) (tx : callback RValue) (r : Result) :
  trace h (map r tx) s
  = if isOk r then [EvCall (fn_id tx) [ResultCase.value r]] else [].
Proof.
  step_prog. destruct (isOk r); [ | reflexivity].
  simpl. answer_cases; reflexivity.
Qed.

(** C3. [map] on Ok(a) calls [tx] once, with [a], and returns Ok of what
    the call returned; on Err(e) it returns the Result it was given and
    does not call [tx].  Whatever the Result, [tx] is called at most once. *)
Theorem map_spec (s : S) (tx : callback RValue) :
  (forall (a b : jsval) (s' : S),
      on_call h RValue tx [a] s = Some (Normal b, s') ->
      run h (map (ok a) tx) s
      = ([EvCall (fn_id tx) [a]], Some (Normal (ok b), s')))
  /\ (forall e : jsval,
         run h (map (err e) tx) s = ([], Some (Normal (err e), s)))
  /\ (forall r : Result,
         (calls_of (fn_id tx) (trace h (map r tx) s) <= 1)%nat
         /\ (isOk r = false -> trace h (map r tx) s = [])).
Proof.
  split; [ | split].
  - intros a b s' Hcall. rewrite run_map_ok, Hcall. reflexivity.
  - intros e. reflexivity.
  - intros r. rewrite trace_map. destruct (isOk r).
    + split; [ | discriminate]. unfold calls_of. cbn.
      rewrite Nat.eqb_refl. cbn. lia.
    + split; [cbn; lia | reflexivity].
Qed.

Lemma trace_match (s : S) (cs : cases) (r : Result) :
  trace h (match_ r cs) s
  = [if isOk r then EvCall (fn_id (Ok cs)) [ResultCase.value r]
     else EvCall (fn_id (Err cs)) [ResultCase.err r]].
Proof.
  step_prog. destruct (isOk r); simpl; answer_cases; reflexivity.
Qed.

(** C8. [match] on Ok(a) calls the [Ok] case once, with [a], and on
    Err(e) the [Err] case once, with [e]; it completes the way that one
    call completes, its result passed on as it is.  Whatever the Result,
    the run makes exactly one call; when the two cases are different
    functions the other one is not called. *)
Theorem match_spec (s : S) (cs : cases) :
  (forall a : jsval,
      run h (match_ (ok a) cs) s
      = ([EvCall (fn_id (Ok cs)) [a]], on_call h RValue (Ok cs) [a] s))
  /\ (forall e : jsval,
         run h (match_ (err e) cs) s
         = ([EvCall (fn_id (Err cs)) [e]], on_call h RValue (Err cs) [e] s))
  /\ (forall r : Result, length (trace h (match_ r cs) s) = 1%nat)
  /\ (fn_id (Ok cs) <> fn_id (Err cs) ->
      forall x : jsval,
        calls_of (fn_id (Ok cs)) (trace h (match_ (ok x) cs) s) = 1%nat
        /\ calls_of (fn_id (Err cs)) (trace h (match_ (ok x) cs) s) = 0%nat
        /\ calls_of (fn_id (Ok cs)) (trace h (match_ (err x) cs) s) = 0%nat
        /\ calls_of (fn_id (Err cs)) (trace h (match_ (err x) cs) s) = 1%nat).
Proof.
  split; [ | split; [ | split]].
  - intros a. apply (run_call RValue (Ok cs) [a] s).
  - intros e. apply (run_call RValue (Err cs) [e] s).
  - intros r. rewrite trace_match. reflexivity.
  - intros Hne x. rewrite !trace_match, isOk_ok, isOk_err.
    unfold calls_of. cbn.
    rewrite !Nat.eqb_refl.
    destruct (Nat.eqb_spec (fn_id (Ok cs)) (fn_id (Err cs))) as [Heq | _];
      [contradiction | ].
    destruct (Nat.eqb_spec (fn_id (Err cs)) (fn_id (Ok cs))) as [Heq | _];
      [symmetry in Heq; contradiction | ].
    repeat split.
Qed.

(** ** ofThrowable, ofPromise *)

Lemma run_ofThrowable (s : S) (throwable : callback RValue) :
  run h (ofThrowable throwable) s
  = ([EvCall (fn_id throwable) []],
     match on_call h RValue throwable [] s with
     | Some (Normal v, s') => Some (Normal (ok v), s')
     | Some (Abrupt e, s') => Some (Normal (err e), s')
     | None => None
     end).
Proof. step_prog. answer_cases; reflexivity. Qed.

Lemma run_ofPromise (s : S) (thunk : callback RPromise) :
  run h (ofPromise thunk) s
  = match on_call h RPromise thunk [] s with
    | Some (Normal p, s1) =>
        ([EvCall (fn_id thunk) []; EvAwait p],
         match on_await h p s1 with
         | Some (Normal value, s2) => Some (Normal (ok value), s2)
         | Some (Abrupt error, s2) => Some (Normal (err error), s2)
         | None => None
         end)
    | Some (Abrupt error, s1) =>
        ([EvCall (fn_id thunk) []], Some (Normal (err error), s1))
    | None => ([EvCall (fn_id thunk) []], None)
    end.
Proof. step_prog. answer_cases; reflexivity. Qed.

(** C5. [ofThrowable] calls the thunk exactly once, without arguments,
    and completes normally whatever the thunk does: with Ok of the value
    the thunk returned, or with Err of the value it threw.  The body of
    [ofPromise] calls its thunk exactly once and awaits at most once: it
    awaits the promise the thunk returned, and returns Ok of the value the
    promise fulfilled with or Err of the value it rejected with (or that
    the thunk itself threw); it never completes by throwing, so the
    promise [ofPromise] hands out is never rejected. *)
Theorem capture_spec (s : S) :
  (forall (throwable : callback RValue) (v : jsval) (s' : S),
      on_call h RValue throwable [] s = Some (Normal v, s') ->
      run h (ofThrowable throwable) s
      = ([EvCall (fn_id throwable) []], Some (Normal (ok v), s')))
  /\ (forall (throwable : callback RValue) (e : jsval) (s' : S),
         on_call h RValue throwable [] s = Some (Abrupt e, s') ->
         run h (ofThrowable throwable) s
         = ([EvCall (fn_id throwable) []], Some (Normal (err e), s')))
  /\ (forall throwable : callback RValue,
         trace h (ofThrowable throwable) s = [EvCall (fn_id throwable) []]
         /\ forall e : jsval,
             outcome h (ofThrowable throwable) s <> Some (Abrupt e))
  /\ (forall (thunk : callback RPromise) (p : promise) (s1 s2 : S) (value : jsval),
         on_call h RPromise thunk [] s = Some (Normal p, s1) ->
         on_await h p s1 = Some (Normal value, s2) ->
         run h (ofPromise thunk) s
         = ([EvCall (fn_id thunk) []; EvAwait p], Some (Normal (ok value), s2)))
  /\ (forall (thunk : callback RPromise) (p : promise) (s1 s2 : S) (error : jsval),
         on_call h RPromise thunk [] s = Some (Normal p, s1) ->
         on_await h p s1 = Some (Abrupt error, s2) ->
         run h (ofPromise thunk) s
         = ([EvCall (fn_id thunk) []; EvAwait p], Some (Normal (err error), s2)))
  /\ (forall (thunk : callback RPromise) (s1 : S) (error : jsval),
         on_call h RPromise thunk [] s = Some (Abrupt error, s1) ->
         run h (ofPromise thunk) s
         = ([EvCall (fn_id thunk) []], Some (Normal (err error), s1)))
  /\ (forall thunk : callback RPromise,
         calls_of (fn_id thunk) (trace h (ofPromise thunk) s) = 1%nat
         /\ (awaits_of (trace h (ofPromise thunk) s) <= 1)%nat
         /\ forall e : jsval,
             settle (outcome h (ofPromise thunk) s) <> Rejected e).
Proof.
  repeat apply conj.
  - intros throwable v s' H. rewrite run_ofThrowable, H. reflexivity.
  - intros throwable e s' H. rewrite run_ofThrowable, H. reflexivity.
  - intros throwable. split.
    + unfold trace. rewrite run_ofThrowable. reflexivity.
    + exact (try_catch_never_throws _ err s).
  - intros thunk p s1 s2 value H1 H2. rewrite run_ofPromise, H1, H2. reflexivity.
  - intros thunk p s1 s2 error H1 H2. rewrite run_ofPromise, H1, H2. reflexivity.
  - intros thunk s1 error H1. rewrite run_ofPromise, H1. reflexivity.
  - intros thunk. split; [ | split].
    + unfold trace, calls_of. rewrite run_ofPromise.
      destruct (on_call h RPromise thunk [] s) as [[[p | e'] s1] | ];
        cbn; rewrite Nat.eqb_refl; reflexivity.
    + unfold trace, awaits_of. rewrite run_ofPromise.
      destruct (on_call h RPromise thunk [] s) as [[[p | e'] s1] | ];
        cbn; lia.
    + intros e Hrej. apply settle_rejected in Hrej.
      exact (try_catch_never_throws _ err s e Hrej).
Qed.

(** C9. A thunk that throws a value that is no Error instance makes
    [ofThrowable] return Err with that very value in its [err] field, and
    a promise that rejects with such a value (or a thunk of [ofPromise]
    that throws it) makes [ofPromise] return the same: nothing checks that
    what was caught is an error. *)
Theorem capture_non_error_spec (s : S) (x : jsval) :
  instanceof x "Error" = false ->
  (forall (throwable : callback RValue) (s' : S),
      on_call h RValue throwable [] s = Some (Abrupt x, s') ->
      exists r : Result,
        outcome h (ofThrowable throwable) s = Some (Normal r)
        /\ isErr r = true /\ ResultCase.err r = x
        /\ instanceof (ResultCase.err r) "Error" = false)
  /\ (forall (thunk : callback RPromise) (p : promise) (s1 s2 : S),
         on_call h RPromise thunk [] s = Some (Normal p, s1) ->
         on_await h p s1 = Some (Abrupt x, s2) ->
         exists r : Result,
           outcome h (ofPromise thunk) s = Some (Normal r)
           /\ isErr r = true /\ ResultCase.err r = x
           /\ instanceof (ResultCase.err r) "Error" = false)
  /\ (forall (thunk : callback RPromise) (s1 : S),
         on_call h RPromise thunk [] s = Some (Abrupt x, s1) ->
         exists r : Result,
           outcome h (ofPromise thunk) s = Some (Normal r)
           /\ isErr r = true /\ ResultCase.err r = x
           /\ instanceof (ResultCase.err r) "Error" = false).
Proof.
  intros Hx. repeat apply conj.
  - intros throwable s' H. exists (err x). unfold outcome.
    rewrite run_ofThrowable, H. repeat split. exact Hx.
  - intros thunk p s1 s2 H1 H2. exists (err x). unfold outcome.
    rewrite run_ofPromise, H1, H2. repeat split. exact Hx.
  - intros thunk s1 H1. exists (err x). unfold outcome.
    rewrite run_ofPromise, H1. repeat split. exact Hx.
Qed.

(** ** valueOr, valueExn *)

(** C4. On Ok(a) both extractors give [a].  On Err(e), [valueOr] gives
    the fallback, and [valueExn] throws: what it throws is a fresh
    [ResultAccessErr], an Error whose message is the fixed text, built
    without reading [e], so it is the same whatever the wrapped error and
    differs from any wrapped error of another kind. *)
Theorem value_extractors_spec (s : S)
    (a e fallback : jsval) :
  let thrown := new_ResultAccessErr "Tried to access result value that is not ok" in
  valueOr (ok a) fallback = a
  /\ run h (valueExn (ok a)) s = ([], Some (Normal a, s))
  /\ valueOr (err e) fallback = fallback
  /\ run h (valueExn (err e)) s = ([], Some (Abrupt thrown, s))
  /\ instanceof thrown "ResultAccessErr" = true
  /\ instanceof thrown "Error" = true
  /\ get thrown "message" = VStr "Tried to access result value that is not ok"
  /\ get thrown "_tag" = VStr "ResultAccessErr"
  /\ (instanceof e "ResultAccessErr" = false -> thrown <> e).
Proof.
  intros thrown. repeat apply conj; try reflexivity.
  intros He Heq. subst e. discriminate He.
Qed.

End Runs.

(** ** Concrete runs *)

Lemma map_spec_witness :
  run Demo.returning (map (ok (VStr "a")) Demo.fn) tt
  = ([EvCall 3 [VStr "a"]], Some (Normal (ok (VArr [VStr "a"])), tt))
  /\ trace Demo.returning (map (err Demo.boom) Demo.fn) tt = [].
Proof.
  destruct (map_spec Demo.returning tt Demo.fn) as (Hok & _ & Hcount).
  split.
  - apply (Hok (VStr "a") (VArr [VStr "a"]) tt). reflexivity.
  - apply (Hcount (err Demo.boom)). reflexivity.
Defined.

Lemma match_spec_witness :
  calls_of 4 (trace Demo.returning (match_ (ok (VBigInt 7)) (Cases Demo.onOk Demo.onErr)) tt) = 1%nat
  /\ calls_of 5 (trace Demo.returning (match_ (ok (VBigInt 7)) (Cases Demo.onOk Demo.onErr)) tt) = 0%nat.
Proof.
  destruct (match_spec Demo.returning tt (Cases Demo.onOk Demo.onErr))
    as (_ & _ & _ & Hiff).
  destruct (Hiff ltac:(discriminate) (VBigInt 7)) as (H1 & H2 & _).
  split; [exact H1 | exact H2].
Defined.

Lemma capture_spec_witness :
  run Demo.returning (ofThrowable Demo.thunk) tt
  = ([EvCall 0 []], Some (Normal (ok (VArr [])), tt))
  /\ run Demo.throwing (ofThrowable Demo.thunk) tt
     = ([EvCall 0 []], Some (Normal (err (VStr "thrown")), tt))
  /\ run Demo.returning (ofPromise Demo.pthunk) tt
     = ([EvCall 1 []; EvAwait (Promise 1)],
        Some (Normal (ok (VStr "fulfilled")), tt))
  /\ run Demo.rejecting (ofPromise Demo.pthunk) tt
     = ([EvCall 1 []; EvAwait (Promise 1)],
        Some (Normal (err (VStr "rejected")), tt))
  /\ run Demo.throwing (ofPromise Demo.pthunk) tt
     = ([EvCall 1 []], Some (Normal (err (VStr "thrown")), tt)).
Proof.
  destruct (capture_spec Demo.returning tt) as (Hret & _ & _ & Hful & _).
  destruct (capture_spec Demo.throwing tt) as (_ & Hthrow & _ & _ & _ & Hsync & _).
  destruct (capture_spec Demo.rejecting tt) as (_ & _ & _ & _ & Hrej & _).
  repeat apply conj.
  - apply (Hret Demo.thunk (VArr []) tt). reflexivity.
  - apply (Hthrow Demo.thunk (VStr "thrown") tt). reflexivity.
  - apply (Hful Demo.pthunk (Promise 1) tt tt (VStr "fulfilled")); reflexivity.
  - apply (Hrej Demo.pthunk (Promise 1) tt tt (VStr "rejected")); reflexivity.
  - apply (Hsync Demo.pthunk tt (VStr "thrown")). reflexivity.
Defined.

Lemma capture_non_error_spec_witness :
  (exists r : Result,
      outcome Demo.throwing (ofThrowable Demo.thunk) tt = Some (Normal r)
      /\ isErr r = true /\ ResultCase.err r = VStr "thrown"
      /\ instanceof (ResultCase.err r) "Error" = false)
  /\ (exists r : Result,
         outcome Demo.rejecting (ofPromise Demo.pthunk) tt = Some (Normal r)
         /\ isErr r = true /\ ResultCase.err r = VStr "rejected"
         /\ instanceof (ResultCase.err r) "Error" = false).
Proof.
  split.
  - destruct (capture_non_error_spec Demo.throwing tt (VStr "thrown") eq_refl)
      as (H & _).
    apply (H Demo.thunk tt). reflexivity.
  - destruct (capture_non_error_spec Demo.rejecting tt (VStr "rejected") eq_refl)
      as (_ & H & _).
    apply (H Demo.pthunk (Promise 1) tt tt); reflexivity.
Defined.

Lemma value_extractors_spec_witness :
  run Demo.returning (valueExn (err Demo.boom)) tt
  = ([], Some (Abrupt (new_ResultAccessErr "Tried to access result value that is not ok"), tt))
  /\ new_ResultAccessErr "Tried to access result value that is not ok" <> Demo.boom.
Proof.
  destruct (value_extractors_spec Demo.returning tt VNull Demo.boom VNull)
    as (_ & _ & _ & Hthrow & _ & _ & _ & _ & Hne).
  split; [exact Hthrow | apply Hne; reflexivity].
Defined.

(** ** result *)

Lemma result_unfold (arg : option jsval) :
  result arg
  = if ToBoolean (default VUndefined arg)
       && negb (instanceof (default VUndefined arg) "Error")
    then ok (default VUndefined arg)
    else err (default VUndefined arg).
Proof.
  unfold result, and_, not_.
  destruct (ToBoolean (default VUndefined arg)) eqn:Ht; simpl.
  - destruct (instanceof _ "Error"); reflexivity.
  - rewrite Ht. reflexivity.
Qed.

(** Not-a-number is neither null, undefined, zero, the empty string nor
    false, yet a condition takes it for false: [result(NaN)] is an Err. *)
Lemma result_nan : result (Some (VNum S754_nan)) = err (VNum S754_nan).
Proof. reflexivity. Qed.

(** C6. [result(value)] is Ok(value) exactly when [value] is truthy and
    no Error instance; otherwise, and so for a missing argument, a falsy
    value or an Error instance, it is Err with [value] in the [err]
    field.  The falsy values are [undefined], [null], [false], the zeros,
    not-a-number, the BigInt zero and the empty string. *)
Theorem result_spec (arg : option jsval) :
  let value := default VUndefined arg in
  (result arg = ok value
   <-> ToBoolean value = true /\ instanceof value "Error" = false)
  /\ (result arg = err value
      <-> ~ (ToBoolean value = true /\ instanceof value "Error" = false))
  /\ (ToBoolean value = true <-> ~ falsy value)
  /\ result None = err VUndefined.
Proof.
  intros value. subst value.
  set (v := default VUndefined arg).
  pose proof (result_unfold arg) as Hr. fold v in Hr.
  pose proof (ok_neq_err v v) as Hne.
  split; [ | split; [ | split]].
  - rewrite Hr.
    destruct (ToBoolean v), (instanceof v "Error"); simpl;
      intuition congruence.
  - rewrite Hr.
    destruct (ToBoolean v), (instanceof v "Error"); simpl;
      intuition congruence.
  - rewrite <- ToBoolean_false_iff.
    destruct (ToBoolean v); intuition congruence.
  - reflexivity.
Qed.

Lemma result_spec_witness :
  result (Some (VStr "value")) = ok (VStr "value")
  /\ result (Some (VNum (S754_zero false))) = err (VNum (S754_zero false))
  /\ result (Some Demo.boom) = err Demo.boom.
Proof.
  repeat apply conj.
  - apply (result_spec (Some (VStr "value"))). split; reflexivity.
  - apply (result_spec (Some (VNum (S754_zero false)))).
    intros [H _]. discriminate H.
  - apply (result_spec (Some Demo.boom)). intros [_ H]. discriminate H.
Defined.

(** ** The discriminant *)

(** C10. [ok(value)] is Ok and not Err for every value, [null] and
    [undefined] included.  [isOk] and [isErr] read the [status] field and
    nothing else: changing [value] and [err] changes neither.  So
    [ok(null)], whose two payload fields are [null], is Ok. *)
Theorem ok_discriminant :
  (forall v : jsval, isOk (ok v) = true /\ isErr (ok v) = false)
  /\ (forall (st : Z) (v e v' e' : jsval),
         isOk (ResultCase.mk v st e) = isOk (ResultCase.mk v' st e')
         /\ isErr (ResultCase.mk v st e) = isErr (ResultCase.mk v' st e'))
  /\ (forall r : Result,
         isOk r = Z.eqb (ResultCase.status r) 1
         /\ isErr r = Z.eqb (ResultCase.status r) 2)
  /\ (isOk (ok VNull) = true /\ isErr (ok VNull) = false
      /\ ResultCase.value (ok VNull) = VNull
      /\ ResultCase.err (ok VNull) = VNull)
  /\ (isOk (ok VUndefined) = true /\ isErr (ok VUndefined) = false).
Proof. repeat first [apply conj | intro]; reflexivity. Qed.

Lemma run_constructed_shape (r : Result) :
  constructed r -> (exists a, r = ok a) \/ (exists e, r = err e).
Proof.
  intros [v | e | arg | S h f s tr r' s' H | S h f s tr r' s' H].
  - left. now exists v.
  - right. now exists e.
  - rewrite result_unfold. destruct (_ && _); [left | right]; eauto.
  - rewrite run_ofThrowable in H.
    destruct (on_call h RValue f [] s) as [[[v | e] s1] | ];
      inversion H; subst; [left | right]; eauto.
  - rewrite run_ofPromise in H.
    destruct (on_call h RPromise f [] s) as [[[p | e] s1] | ];
      [ | inversion H; subst; right; eauto | inversion H].
    destruct (on_await h p s1) as [[[v | e] s2] | ];
      inversion H; subst; [left | right]; eauto.
Qed.

(** C7, as the code has it.  For every Result a constructor of the
    library hands out, [isOk] and [isErr] are each other's negation, and
    the field of the other variant is [null]: [err] on an Ok, [value] on
    an Err.  So at most one of [value] and [err] is populated, and exactly
    one is precisely when the wrapped payload is itself not [null]. *)
Theorem constructed_discriminant (r : Result) :
  constructed r ->
  isOk r = negb (isErr r)
  /\ (isOk r = true -> ResultCase.err r = VNull)
  /\ (isErr r = true -> ResultCase.value r = VNull)
  /\ populated (ResultCase.value r) && populated (ResultCase.err r) = false
  /\ exactly_one_populated r
     = populated (if isOk r then ResultCase.value r else ResultCase.err r).
Proof.
  intros Hr. apply run_constructed_shape in Hr.
  destruct Hr as [[a ->] | [e ->]].
  - repeat apply conj; try reflexivity.
    + discriminate.
    + cbn. apply andb_false_r.
    + unfold exactly_one_populated. cbn. apply xorb_false_r.
  - repeat apply conj; try reflexivity. discriminate.
Qed.

Lemma constructed_discriminant_witness :
  isOk (result None) = negb (isErr (result None))
  /\ ResultCase.value (result None) = VNull
  /\ exactly_one_populated (ok VNull) = false.
Proof.
  destruct (constructed_discriminant (result None) (constructed_result None))
    as (Hneg & _ & Hval & _).
  destruct (constructed_discriminant (ok VNull) (constructed_ok VNull))
    as (_ & _ & _ & _ & Hone).
  repeat apply conj.
  - exact Hneg.
  - apply Hval. reflexivity.
  - exact Hone.
Defined.

(** C7 as the specification words it fails on [ok(null)]: the two
    predicates disagree as they should, but neither [value] nor [err] is
    populated. *)
Lemma constructed_not_exactly_one :
  constructed (ok VNull)
  /\ ~ (isOk (ok VNull) <> isErr (ok VNull)
        /\ exactly_one_populated (ok VNull) = true).
Proof.
  split; [constructor | ]. intros [_ H]. discriminate H.
Qed.

(** ** The scenarios of the specification, run *)

Example scenario_chain_ok :
  run Demo.arith (andThen_chain (ok (VBigInt 5)) [Demo.double; Demo.addOne]) tt
  = ([EvCall 10 [VBigInt 5]; EvCall 12 [VBigInt 10]],
     Some (Normal (ok (VBigInt 11)), tt)).
Proof. reflexivity. Qed.

Example scenario_chain_short_circuit :
  run Demo.arith
      (andThen_chain (ok (VBigInt 4)) [Demo.double; Demo.failOnEven; Demo.addOne]) tt
  = ([EvCall 10 [VBigInt 4]; EvCall 11 [VBigInt 8]],
     Some (Normal (err Demo.even_error), tt)).
Proof. reflexivity. Qed.

Example scenario_andThen_returns_tx :
  run Demo.returning (andThen (ok (VStr "a")) Demo.tx) tt
  = ([EvCall 2 [VStr "a"]], Some (Normal (ok (VArr [VStr "a"])), tt)).
Proof. reflexivity. Qed.

Example scenario_match :
  run Demo.arith (match_ (ok (VBigInt 7)) (Cases Demo.succ Demo.minusOne)) tt
  = ([EvCall 13 [VBigInt 7]], Some (Normal (VBigInt 8), tt))
  /\ run Demo.arith (match_ (err Demo.boom) (Cases Demo.succ Demo.minusOne)) tt
     = ([EvCall 14 [Demo.boom]], Some (Normal (VBigInt (-1)), tt)).
Proof. split; reflexivity. Qed.

Example scenario_mapErr :
  run Demo.returning (mapErr (err Demo.boom) Demo.fn) tt
  = ([EvCall 3 [Demo.boom]], Some (Normal (err (VArr [Demo.boom])), tt))
  /\ run Demo.returning (mapErr (ok VNull) Demo.fn) tt
     = ([], Some (Normal (ok VNull), tt)).
Proof. split; reflexivity. Qed.

(** A custom error class keeps its class through [andThen]. *)
Example scenario_custom_error :
  let custom := VObj ["CustomError"; "Error"; "Object"] [("message", VStr "m")] in
  exists r : Result,
    outcome Demo.returning (andThen (err custom) Demo.tx) tt = Some (Normal r)
    /\ isErr r = true
    /\ instanceof (ResultCase.err r) "CustomError" = true
    /\ trace Demo.returning (andThen (err custom) Demo.tx) tt = [].
Proof. intros custom. exists (err custom). repeat split. Qed.

Example scenario_result_no_argument : isErr (result None) = true.
Proof. reflexivity. Qed.

Example scenario_array_set_past_end :
  array_set [VNull] 3 (VStr "x") = [VNull; VUndefined; VUndefined; VStr "x"].
Proof. reflexivity. Qed.

(** * Further properties of the library *)

(** ** combine on arbitrary arrays *)

Lemma forallb_isOk_Forall (l : list Result) :
  forallb isOk l = true <-> Forall (fun r => isOk r = true) l.
Proof.
  induction l as [ | r l IH]; simpl.
  - split; [constructor | reflexivity].
  - rewrite andb_true_iff, IH. split.
    + intros [Hr Hl]. now constructor.
    + intros H. inversion H; subst. now split.
Qed.

(** An array that is not all Ok splits at its first element that is not. *)
Lemma first_not_ok (l : list Result) :
  forallb isOk l = false ->
  exists pre e post,
    l = pre ++ e :: post
    /\ Forall (fun r => isOk r = true) pre
    /\ isOk e = false.
Proof.
  induction l as [ | r l IH]; simpl; [discriminate | ].
  destruct (isOk r) eqn:Hr; simpl.
  - intros H. destruct (IH H) as (pre & e & post & -> & Hpre & He).
    exists (r :: pre), e, post. repeat split; [now constructor | exact He].
  - intros _. exists [], r, l. repeat split; [constructor | exact Hr].
Qed.

Lemma isOk_combine_loop (rest : list Result) :
  forall values i, isOk (fst (combine_loop rest values i)) = forallb isOk rest.
Proof.
  induction rest as [ | r rest IH]; intros values i; simpl; [reflexivity | ].
  destruct (isOk r) eqn:Hr; simpl; [ | exact Hr].
  specialize (IH (array_set values i (ResultCase.value r)) (S i)).
  destruct (combine_loop rest _ (S i)) as [r' n]. exact IH.
Qed.

Lemma combine_first_err (pre : list Result) (e : Result) (post : list Result) :
  Forall (fun r => isOk r = true) pre ->
  isOk e = false ->
  combine_scan (pre ++ e :: post) = (e, S (length pre)).
Proof.
  intros Hpre He. unfold combine_scan. now apply combine_loop_first_err.
Qed.

Lemma combine_all_ok (results : list Result) :
  Forall (fun r => isOk r = true) results ->
  combine results = ok (VArr (ResultCase.value <$> results)).
Proof.
  intros H. unfold combine.
  assert (E : combine_scan results
              = (ok (VArr (ResultCase.value <$> results)), length results))
    by apply (combine_loop_all_ok results H []).
  now rewrite E.
Qed.

(** X1. Whatever the array, [combine] returns an Ok exactly when every
    element is Ok. *)
Theorem combine_isOk (results : list Result) :
  isOk (combine results) = forallb isOk results.
Proof. unfold combine, combine_scan. apply isOk_combine_loop. Qed.

(** X2. When some element is not Ok, what [combine] returns is an element
    of the array: the one at the position where the scan stopped, every
    element before it being Ok. *)
Theorem combine_returns_element (results : list Result) :
  forallb isOk results = false ->
  exists k : nat,
    results !! k = Some (combine results)
    /\ snd (combine_scan results) = S k
    /\ forallb isOk (take k results) = true
    /\ (k < length results)%nat.
Proof.
  intros H. destruct (first_not_ok results H) as (pre & e & post & -> & Hpre & He).
  exists (length pre). unfold combine.
  rewrite (combine_first_err pre e post Hpre He). cbn [fst snd].
  repeat split.
  - now rewrite list_lookup_middle.
  - rewrite take_app_length. now apply forallb_isOk_Forall.
  - rewrite length_app. simpl. lia.
Qed.

Lemma combine_returns_element_witness :
  exists k : nat,
    [ok VNull; err Demo.boom; err VNull] !! k
    = Some (combine [ok VNull; err Demo.boom; err VNull])
    /\ snd (combine_scan [ok VNull; err Demo.boom; err VNull]) = S k
    /\ forallb isOk (take k [ok VNull; err Demo.boom; err VNull]) = true
    /\ (k < length [ok VNull; err Demo.boom; err VNull])%nat.
Proof.
  apply (combine_returns_element [ok VNull; err Demo.boom; err VNull]).
  reflexivity.
Defined.

(** X3. [combine] over a concatenation: an Err from the first part is the
    answer whatever follows; after an all-Ok first part the answer is the
    Err of the second part, or else Ok of the two value arrays appended. *)
Theorem combine_app (xs ys : list Result) :
  (isOk (combine xs) = false -> combine (xs ++ ys) = combine xs)
  /\ (isOk (combine xs) = true -> isOk (combine ys) = false ->
      combine (xs ++ ys) = combine ys)
  /\ (isOk (combine xs) = true -> isOk (combine ys) = true ->
      exists vs ws : list jsval,
        combine xs = ok (VArr vs) /\ combine ys = ok (VArr ws)
        /\ combine (xs ++ ys) = ok (VArr (vs ++ ws))).
Proof.
  assert (Hc : forall l, isOk (combine l) = forallb isOk l)
    by (intros l; apply isOk_combine_loop).
  rewrite !Hc. clear Hc.
  split; [ | split].
  - intros Hx. destruct (first_not_ok xs Hx) as (pre & e & post & -> & Hpre & He).
    unfold combine. rewrite <- app_assoc, <- app_comm_cons.
    now rewrite !combine_first_err by assumption.
  - intros Hx Hy. apply forallb_isOk_Forall in Hx.
    destruct (first_not_ok ys Hy) as (pre & e & post & -> & Hpre & He).
    unfold combine. rewrite app_assoc.
    rewrite !combine_first_err; auto. now apply Forall_app.
  - intros Hx Hy. apply forallb_isOk_Forall in Hx, Hy.
    exists (ResultCase.value <$> xs), (ResultCase.value <$> ys).
    rewrite !combine_all_ok; auto.
    + now rewrite fmap_app.
    + now apply Forall_app.
Qed.

Lemma combine_app_witness :
  combine ([ok VNull; err Demo.boom] ++ [err VNull]) = combine [ok VNull; err Demo.boom]
  /\ combine ([ok VNull] ++ [err Demo.boom; ok VNull]) = combine [err Demo.boom; ok VNull]
  /\ exists vs ws : list jsval,
      combine [ok VNull] = ok (VArr vs) /\ combine [ok (VStr "b")] = ok (VArr ws)
      /\ combine ([ok VNull] ++ [ok (VStr "b")]) = ok (VArr (vs ++ ws)).
Proof.
  split; [ | split].
  - apply (combine_app [ok VNull; err Demo.boom] [err VNull]). reflexivity.
  - apply (combine_app [ok VNull] [err Demo.boom; ok VNull]); reflexivity.
  - apply (combine_app [ok VNull] [ok (VStr "b")]); reflexivity.
Defined.

(** X4. The array the test suite builds by overwriting one slot of an
    all-Ok array with an Err, or appending the Err, always combines to
    that Err. *)
Theorem combine_results_with_err (values : list jsval) (error : jsval)
    (errorIndex : nat) :
  combine (Tests.results_with_err values error errorIndex) = err error.
Proof.
  unfold Tests.results_with_err.
  set (k := (errorIndex mod (length values + 1))%nat).
  assert (Hk : (k <= length values)%nat).
  { subst k. pose proof (Nat.mod_upper_bound errorIndex (length values + 1)). lia. }
  rewrite length_fmap. unfold combine.
  destruct (Nat.ltb_spec k (length values)) as [Hlt | Hge].
  - rewrite insert_take_drop by (rewrite length_fmap; lia).
    rewrite combine_first_err; [reflexivity | | reflexivity].
    rewrite <- fmap_take. apply Forall_isOk_fmap_ok.
  - rewrite combine_first_err; [reflexivity | | reflexivity].
    apply Forall_isOk_fmap_ok.
Qed.

(** ** The discriminant of an arbitrary record *)

(** X5. No record is both Ok and Err; a record is one of the two exactly
    when its [status] is one of the two constants, so a record with any
    other status is neither. *)
Theorem discriminant_any_record (r : Result) :
  isOk r && isErr r = false
  /\ (isOk r = negb (isErr r)
      <-> ResultCase.status r = ResultStatus.ok
          \/ ResultCase.status r = ResultStatus.err)
  /\ (isOk r = false /\ isErr r = false
      <-> ResultCase.status r <> ResultStatus.ok
          /\ ResultCase.status r <> ResultStatus.err).
Proof.
  unfold isOk, isErr. rewrite ResultStatus_ok_val, ResultStatus_err_val.
  destruct (Z.eqb_spec (ResultCase.status r) 1) as [H1 | H1];
    destruct (Z.eqb_spec (ResultCase.status r) 2) as [H2 | H2];
    simpl; repeat split; try tauto; try lia; try discriminate;
    intuition (try lia; try discriminate).
Qed.

(** ** More runs against an arbitrary environment *)

Section MoreRuns.

Context {S : Type} (h : env S).

(** Running [bind p f]: the run of [p], then of [f] on what it returned. *)
Lemma run_bind {A B : Type} (p : prog A) (f : A -> prog B) (s : S) :
  run h (bind p f) s
  = match run h p s with
    | (tr, Some (Normal a, s')) =>
        let (tr', out) := run h (f a) s' in (tr ++ tr', out)
    | (tr, Some (Abrupt e, s')) => (tr, Some (Abrupt e, s'))
    | (tr, None) => (tr, None)
    end.
Proof.
  revert s. induction p as [a | e | t fn args k IH | pr k IH]; intros s; simpl.
  - destruct (run h (f a) s) as [tr' out]. reflexivity.
  - reflexivity.
  - destruct (on_call h t fn args s) as [[c s'] | ]; [ | reflexivity].
    rewrite IH. destruct (run h (k c) s') as [tr [[[a | e] s''] | ]];
      [ | reflexivity | reflexivity].
    destruct (run h (f a) s'') as [tr' out]. reflexivity.
  - destruct (on_await h pr s) as [[c s'] | ]; [ | reflexivity].
    rewrite IH. destruct (run h (k c) s') as [tr [[[a | e] s''] | ]];
      [ | reflexivity | reflexivity].
    destruct (run h (f a) s'') as [tr' out]. reflexivity.
Qed.

Lemma run_mapErr_err (s : S) (tx : callback RValue) (e : jsval) :
  run h (mapErr (err e) tx) s
  = ([EvCall (fn_id tx) [e]],
     match on_call h RValue tx [e] s with
     | Some (Normal b, s') => Some (Normal (err b), s')
     | Some (Abrupt x, s') => Some (Abrupt x, s')
     | None => None
     end).
Proof. step_prog. answer_cases; reflexivity. Qed.

Lemma trace_mapErr (s : S) (tx : callback RValue) (r : Result) :
  trace h (mapErr r tx) s
  = if isOk r then [] else [EvCall (fn_id tx) [ResultCase.err r]].
Proof.
  step_prog. destruct (isOk r); [reflexivity | ].
  simpl. answer_cases; reflexivity.
Qed.

(** X6. [mapErr] on Err(e) calls [tx] once, with [e], and returns Err of
    what the call returned; on Ok(a) it returns the Result it was given
    and does not call [tx].  Whatever the record, [tx] is called at most
    once. *)
Theorem mapErr_spec (s : S) (tx : callback RValue) :
  (forall (e b : jsval) (s' : S),
      on_call h RValue tx [e] s = Some (Normal b, s') ->
      run h (mapErr (err e) tx) s
      = ([EvCall (fn_id tx) [e]], Some (Normal (err b), s')))
  /\ (forall a : jsval,
         run h (mapErr (ok a) tx) s = ([], Some (Normal (ok a), s)))
  /\ (forall r : Result,
         (calls_of (fn_id tx) (trace h (mapErr r tx) s) <= 1)%nat
         /\ (isOk r = true -> trace h (mapErr r tx) s = [])).
Proof.
  split; [ | split].
  - intros e b s' H. rewrite run_mapErr_err, H. reflexivity.
  - intros a. reflexivity.
  - intros r. rewrite trace_mapErr. destruct (isOk r).
    + split; [cbn; lia | reflexivity].
    + split; [ | discriminate]. unfold calls_of. cbn.
      rewrite Nat.eqb_refl. cbn. lia.
Qed.

(** X7. [map] and [mapErr] catch nothing: when the one call of [tx]
    throws, the thrown value is what the combinator throws, and no Result
    is returned. *)
Theorem transform_throw_propagates (s s' : S) (tx : callback RValue)
    (payload thrown : jsval) :
  on_call h RValue tx [payload] s = Some (Abrupt thrown, s') ->
  run h (map (ok payload) tx) s
  = ([EvCall (fn_id tx) [payload]], Some (Abrupt thrown, s'))
  /\ run h (mapErr (err payload) tx) s
     = ([EvCall (fn_id tx) [payload]], Some (Abrupt thrown, s')).
Proof.
  intros H. split.
  - rewrite run_map_ok, H. reflexivity.
  - rewrite run_mapErr_err, H. reflexivity.
Qed.

Lemma andThen_chain_app (r : Result) (fs gs : list (callback RResult)) :
  andThen_chain r (fs ++ gs)
  = fold_left (fun acc f => r' ← acc; andThen r' f) gs (andThen_chain r fs).
Proof. unfold andThen_chain. apply fold_left_app. Qed.

(** Once a program has returned a Result that is not Ok, nesting further
    [andThen] calls around it changes nothing. *)
Lemma andThen_steps_after_err (gs : list (callback RResult)) :
  forall (p : prog Result) (s s' : S) (tr : list event) (r : Result),
    run h p s = (tr, Some (Normal r, s')) ->
    isOk r = false ->
    run h (fold_left (fun acc f => r' ← acc; andThen r' f) gs p) s
    = (tr, Some (Normal r, s')).
Proof.
  induction gs as [ | g gs IH]; intros p s s' tr r Hp Hr; [exact Hp | ].
  cbn [fold_left]. apply (IH _ s s' tr r); [ | exact Hr].
  unfold mbind, prog_bind. rewrite run_bind, Hp.
  unfold andThen. rewrite Hr. simpl. now rewrite app_nil_r.
Qed.

(** X8. A nest of [andThen] calls stops at the first Result that is not
    Ok: when the nest over [fs] returns such a Result, the nest over
    [fs ++ gs] makes the same calls and returns the same Result, no
    function of [gs] being called. *)
Theorem andThen_chain_short_circuit (r : Result) (fs gs : list (callback RResult))
    (s s' : S) (tr : list event) (r' : Result) :
  run h (andThen_chain r fs) s = (tr, Some (Normal r', s')) ->
  isOk r' = false ->
  run h (andThen_chain r (fs ++ gs)) s = (tr, Some (Normal r', s')).
Proof.
  intros Hfs Hr. rewrite andThen_chain_app.
  now apply andThen_steps_after_err.
Qed.

(** X9. [map(map(r, f), g)] on Ok(a) calls [f] with [a], then [g] with
    what [f] returned, and returns Ok of what [g] returned; when [f]
    throws, [g] is not called; on Err(e) neither is called. *)
Theorem map_map_spec (s : S) (f g : callback RValue) :
  (forall (a b c : jsval) (s1 s2 : S),
      on_call h RValue f [a] s = Some (Normal b, s1) ->
      on_call h RValue g [b] s1 = Some (Normal c, s2) ->
      run h (map_map (ok a) f g) s
      = ([EvCall (fn_id f) [a]; EvCall (fn_id g) [b]], Some (Normal (ok c), s2)))
  /\ (forall (a x : jsval) (s1 : S),
         on_call h RValue f [a] s = Some (Abrupt x, s1) ->
         run h (map_map (ok a) f g) s
         = ([EvCall (fn_id f) [a]], Some (Abrupt x, s1)))
  /\ (forall e : jsval,
         run h (map_map (err e) f g) s = ([], Some (Normal (err e), s))).
Proof.
  unfold map_map, mbind, prog_bind. split; [ | split].
  - intros a b c s1 s2 Hf Hg.
    rewrite run_bind, run_map_ok, Hf, run_map_ok, Hg. reflexivity.
  - intros a x s1 Hf. rewrite run_bind, run_map_ok, Hf. reflexivity.
  - intros e. reflexivity.
Qed.

(** X10. [mapErr(map(r, f), g)] runs one of the two transforms: on Ok(a)
    only [f], giving Ok of its result; on Err(e) only [g], giving Err of
    its result. *)
Theorem mapErr_map_spec (s : S) (f g : callback RValue) :
  (forall (a b : jsval) (s1 : S),
      on_call h RValue f [a] s = Some (Normal b, s1) ->
      run h (mapErr_map (ok a) f g) s
      = ([EvCall (fn_id f) [a]], Some (Normal (ok b), s1)))
  /\ (forall (e b : jsval) (s1 : S),
         on_call h RValue g [e] s = Some (Normal b, s1) ->
         run h (mapErr_map (err e) f g) s
         = ([EvCall (fn_id g) [e]], Some (Normal (err b), s1))).
Proof.
  unfold mapErr_map, mbind, prog_bind. split.
  - intros a b s1 Hf. rewrite run_bind, run_map_ok, Hf. reflexivity.
  - intros e b s1 Hg. rewrite run_bind.
    change (run h (map (err e) f) s) with (@nil event, Some (Normal (err e), s)).
    cbv iota. rewrite run_mapErr_err, Hg. reflexivity.
Qed.

(** X11. [valueExn(ofThrowable(thunk))] gives back what the thunk
    returned; when the thunk threw, what is thrown is the fixed
    [ResultAccessErr], not the value the thunk threw, which is dropped. *)
Theorem valueExn_ofThrowable_spec (s : S) (thunk : callback RValue) :
  (forall (v : jsval) (s' : S),
      on_call h RValue thunk [] s = Some (Normal v, s') ->
      run h (valueExn_ofThrowable thunk) s
      = ([EvCall (fn_id thunk) []], Some (Normal v, s')))
  /\ (forall (x : jsval) (s' : S),
         on_call h RValue thunk [] s = Some (Abrupt x, s') ->
         run h (valueExn_ofThrowable thunk) s
         = ([EvCall (fn_id thunk) []],
            Some (Abrupt (new_ResultAccessErr
                            "Tried to access result value that is not ok"), s'))).
Proof.
  unfold valueExn_ofThrowable, mbind, prog_bind. split.
  - intros v s' H. rewrite run_bind, run_ofThrowable, H. reflexivity.
  - intros x s' H. rewrite run_bind, run_ofThrowable, H. reflexivity.
Qed.

(** X12. [ofPromise] sets no deadline: when the thunk never returns, or
    the promise it returned never settles, the body never resumes and the
    promise [ofPromise] handed out stays pending. *)
Theorem ofPromise_pending (s : S) (thunk : callback RPromise) :
  (on_call h RPromise thunk [] s = None ->
   run h (ofPromise thunk) s = ([EvCall (fn_id thunk) []], None)
   /\ settle (outcome h (ofPromise thunk) s) = Pending)
  /\ (forall (p : promise) (s1 : S),
         on_call h RPromise thunk [] s = Some (Normal p, s1) ->
         on_await h p s1 = None ->
         run h (ofPromise thunk) s = ([EvCall (fn_id thunk) []; EvAwait p], None)
         /\ settle (outcome h (ofPromise thunk) s) = Pending).
Proof.
  unfold outcome. split.
  - intros H. rewrite run_ofPromise, H. split; reflexivity.
  - intros p s1 H1 H2. rewrite run_ofPromise, H1, H2. split; reflexivity.
Qed.


(** X14. [match] with the handlers [x => x] and [() => fallback] is
    [valueOr]: against an environment in which the [Ok] case returns its
    argument and the [Err] case returns [fallback], it returns
    [valueOr(r, fallback)] for every record. *)
Theorem match_as_valueOr (s : S) (cs : cases) (fallback : jsval) :
  (forall a : jsval, on_call h RValue (Ok cs) [a] s = Some (Normal a, s)) ->
  (forall e : jsval, on_call h RValue (Err cs) [e] s = Some (Normal fallback, s)) ->
  forall r : Result,
    outcome h (match_ r cs) s = Some (Normal (valueOr r fallback)).
Proof.
  intros Hok Herr r. unfold outcome, match_, valueOr.
  destruct (isOk r); cbv iota.
  - specialize (Hok (ResultCase.value r)). unfold call. simpl in Hok |- *.
    now rewrite Hok.
  - specialize (Herr (ResultCase.err r)). unfold call. simpl in Herr |- *.
    now rewrite Herr.
Qed.

(** X15. [map], [mapErr] and [combine] keep the shape of a Result: from
    records built by [ok] or [err] they return, when they return, a
    record built by [ok] or [err]. *)
Theorem shape_preserved (s : S) (tx : callback RValue) :
  (forall (r r' : Result) (tr : list event) (s' : S),
      well_shaped r ->
      run h (map r tx) s = (tr, Some (Normal r', s')) ->
      well_shaped r')
  /\ (forall (r r' : Result) (tr : list event) (s' : S),
         well_shaped r ->
         run h (mapErr r tx) s = (tr, Some (Normal r', s')) ->
         well_shaped r')
  /\ (forall results : list Result,
         Forall well_shaped results -> well_shaped (combine results)).
Proof.
  split; [ | split].
  - intros r r' tr s' [[a ->] | [e ->]] H.
    + rewrite run_map_ok in H.
      destruct (on_call h RValue tx [a] s) as [[[b | x] s1] | ];
        inversion H; subst. left. now exists b.
    + inversion H; subst. right. now exists e.
  - intros r r' tr s' [[a ->] | [e ->]] H.
    + inversion H; subst. left. now exists a.
    + rewrite run_mapErr_err in H.
      destruct (on_call h RValue tx [e] s) as [[[b | x] s1] | ];
        inversion H; subst. right. now exists b.
  - intros results Hall.
    destruct (forallb isOk results) eqn:Hb.
    + apply forallb_isOk_Forall in Hb. rewrite (combine_all_ok _ Hb).
      left. eexists. reflexivity.
    + destruct (first_not_ok results Hb) as (pre & e & post & -> & Hpre & He).
      unfold combine. rewrite (combine_first_err pre e post Hpre He). cbn [fst].
      apply Forall_app in Hall as [_ Hall]. now inversion Hall.
Qed.

End MoreRuns.


(** ** Concrete runs of the further properties *)

Lemma mapErr_spec_witness :
  run Demo.returning (mapErr (err Demo.boom) Demo.fn) tt
  = ([EvCall 3 [Demo.boom]], Some (Normal (err (VArr [Demo.boom])), tt))
  /\ trace Demo.returning (mapErr (ok VNull) Demo.fn) tt = [].
Proof.
  destruct (mapErr_spec Demo.returning tt Demo.fn) as (Herr & _ & Hcount).
  split.
  - apply (Herr Demo.boom (VArr [Demo.boom]) tt). reflexivity.
  - apply (Hcount (ok VNull)). reflexivity.
Defined.

Lemma transform_throw_propagates_witness :
  run Demo.throwing (map (ok VNull) Demo.fn) tt
  = ([EvCall 3 [VNull]], Some (Abrupt (VStr "thrown"), tt))
  /\ run Demo.throwing (mapErr (err VNull) Demo.fn) tt
     = ([EvCall 3 [VNull]], Some (Abrupt (VStr "thrown"), tt)).
Proof.
  apply (transform_throw_propagates Demo.throwing tt tt Demo.fn VNull (VStr "thrown")).
  reflexivity.
Defined.

Lemma andThen_chain_short_circuit_witness :
  run Demo.arith
      (andThen_chain (ok (VBigInt 4)) ([Demo.double; Demo.failOnEven] ++ [Demo.addOne])) tt
  = ([EvCall 10 [VBigInt 4]; EvCall 11 [VBigInt 8]],
     Some (Normal (err Demo.even_error), tt)).
Proof.
  apply (andThen_chain_short_circuit Demo.arith (ok (VBigInt 4))
           [Demo.double; Demo.failOnEven] [Demo.addOne] tt tt);
    reflexivity.
Defined.

Lemma map_map_spec_witness :
  run Demo.returning (map_map (ok VNull) Demo.fn Demo.onOk) tt
  = ([EvCall 3 [VNull]; EvCall 4 [VArr [VNull]]],
     Some (Normal (ok (VArr [VArr [VNull]])), tt))
  /\ run Demo.throwing (map_map (ok VNull) Demo.fn Demo.onOk) tt
     = ([EvCall 3 [VNull]], Some (Abrupt (VStr "thrown"), tt)).
Proof.
  destruct (map_map_spec Demo.returning tt Demo.fn Demo.onOk) as (Hok & _).
  destruct (map_map_spec Demo.throwing tt Demo.fn Demo.onOk) as (_ & Hthrow & _).
  split.
  - apply (Hok VNull (VArr [VNull]) (VArr [VArr [VNull]]) tt tt); reflexivity.
  - apply (Hthrow VNull (VStr "thrown") tt). reflexivity.
Defined.

Lemma mapErr_map_spec_witness :
  run Demo.returning (mapErr_map (ok VNull) Demo.fn Demo.onErr) tt
  = ([EvCall 3 [VNull]], Some (Normal (ok (VArr [VNull])), tt))
  /\ run Demo.returning (mapErr_map (err Demo.boom) Demo.fn Demo.onErr) tt
     = ([EvCall 5 [Demo.boom]], Some (Normal (err (VArr [Demo.boom])), tt)).
Proof.
  destruct (mapErr_map_spec Demo.returning tt Demo.fn Demo.onErr) as (Hok & Herr).
  split.
  - apply (Hok VNull (VArr [VNull]) tt). reflexivity.
  - apply (Herr Demo.boom (VArr [Demo.boom]) tt). reflexivity.
Defined.

Lemma valueExn_ofThrowable_spec_witness :
  run Demo.returning (valueExn_ofThrowable Demo.thunk) tt
  = ([EvCall 0 []], Some (Normal (VArr []), tt))
  /\ run Demo.throwing (valueExn_ofThrowable Demo.thunk) tt
     = ([EvCall 0 []],
        Some (Abrupt (new_ResultAccessErr
                        "Tried to access result value that is not ok"), tt)).
Proof.
  destruct (valueExn_ofThrowable_spec Demo.returning tt Demo.thunk) as (Hret & _).
  destruct (valueExn_ofThrowable_spec Demo.throwing tt Demo.thunk) as (_ & Hthrow).
  split.
  - apply (Hret (VArr []) tt). reflexivity.
  - apply (Hthrow (VStr "thrown") tt). reflexivity.
Defined.

Lemma ofPromise_pending_witness :
  settle (outcome Tests.pending (ofPromise Demo.pthunk) tt) = Pending
  /\ settle (outcome Tests.unwrapping (ofPromise Demo.pthunk) tt) = Pending.
Proof.
  destruct (ofPromise_pending Tests.pending tt Demo.pthunk) as (_ & Hawait).
  destruct (ofPromise_pending Tests.unwrapping tt Demo.pthunk) as (Hcall & _).
  split.
  - apply (Hawait (Promise 1) tt); reflexivity.
  - apply Hcall. reflexivity.
Defined.


Lemma match_as_valueOr_witness :
  outcome Tests.unwrapping
          (match_ (ok (VStr "kept")) (Cases Tests.identity Tests.constant)) tt
  = Some (Normal (VStr "kept"))
  /\ outcome Tests.unwrapping
             (match_ (err Demo.boom) (Cases Tests.identity Tests.constant)) tt
     = Some (Normal (VStr "fallback")).
Proof.
  split.
  - apply (match_as_valueOr Tests.unwrapping tt
             (Cases Tests.identity Tests.constant) (VStr "fallback"));
      intros; reflexivity.
  - apply (match_as_valueOr Tests.unwrapping tt
             (Cases Tests.identity Tests.constant) (VStr "fallback")
             ltac:(intros; reflexivity) ltac:(intros; reflexivity) (err Demo.boom)).
Defined.

Lemma shape_preserved_witness :
  well_shaped (ok (VArr [VNull]))
  /\ well_shaped (combine [ok VNull; err Demo.boom]).
Proof.
  destruct (shape_preserved Demo.returning tt Demo.fn) as (Hmap & _ & Hcombine).
  split.
  - apply (Hmap (ok VNull) (ok (VArr [VNull])) [EvCall 3 [VNull]] tt).
    + left. now exists VNull.
    + reflexivity.
  - apply (Hcombine [ok VNull; err Demo.boom]).
    constructor; [left; now exists VNull | ].
    constructor; [right; now exists Demo.boom | constructor].
Defined.
